(** * Simplex blendshape solver: the entities of [simplex.h]

    A shallow embedding of the classes declared in
    [SimplexCPP/src/lib/simplex.h] and of the member functions whose bodies
    the header gives, followed by the properties of the rig's entity graph.

    Conventions of the embedding.
    - A [double] is the rational number it denotes ([Q]); rounding, NaN and
      the infinities are outside the model.
    - A [size_t] that is only ever used as a position is a [nat].
    - A pointer into one of the vectors owned by [Simplex] is the position
      of the pointee in that vector; [ShapeController*] carries the vector
      it points into as a tag.  [void*] is [option N], [nullptr] is [None].
    - A member that a constructor leaves out of its initialiser list has an
      indeterminate value; such members have type [option _] and
      [indeterminate] is [None].
    - Reading a vector out of range or through a dangling pointer is
      undefined behaviour: the operation has no result ([None]). *)

From Stdlib Require Import QArith Qminmax Qabs Lia.
From stdpp Require Import base list option strings.

Set Default Proof Using "Type".

(** ** Constants of the namespace *)

Inductive ProgType := linear | spline.

Definition EPS : Q := 1 # 1000000.
Definition ULPS : Z := 4.
Definition MAXVAL : Q := 1.

(** [x < y] on doubles. *)
Definition Qltb (x y : Q) : bool := negb (Qle_bool y x).

Definition indeterminate {A : Type} : option A := None.

Definition void_ptr := option N.
Definition nullptr : void_ptr := None.

(** ** ShapeBase, Shape *)

Module ShapeBase.

Record t := mk {
  shapeRef : void_ptr;
  name : string;
  index : nat
}.

(** [ShapeBase(name, index)] *)
Definition ctor (name : string) (index : nat) : t :=
  {| shapeRef := nullptr; name := name; index := index |}.

(** [ShapeBase(name)] *)
Definition ctor_name (name : string) : t :=
  {| shapeRef := nullptr; name := name; index := 0 |}.

Definition getName (b : t) : string := name b.
Definition getIndex (b : t) : nat := index b.
Definition getUserData (b : t) : void_ptr := shapeRef b.
Definition setUserData (data : void_ptr) (b : t) : t :=
  {| shapeRef := data; name := name b; index := index b |}.

End ShapeBase.

Module Shape.

Record t := mk { base : ShapeBase.t }.

Definition ctor (name : string) (index : nat) : t :=
  {| base := ShapeBase.ctor name index |}.

End Shape.

(** ** Progression *)

Module Progression.

(** A knot: a [Shape*] (position in [Simplex::shapes]) and its parameter. *)
Definition knot : Type := nat * Q.

Record t := mk {
  base : ShapeBase.t;
  pairs : list knot;
  interp : ProgType
}.

(** The constructor.  The member initialisers copy the three arguments.
    In the body the name [pairs] is the constructor's parameter, which
    hides the member of the same name, so the [std::sort] call there does
    not reach [this->pairs]: the member keeps the order of the argument. *)
Definition ctor (name : string) (pairs : list knot) (interp : ProgType) : t :=
  {| base := ShapeBase.ctor_name name; pairs := pairs; interp := interp |}.

Definition times (p : t) : list Q := map snd (pairs p).

(** The knot-order invariant, as checks on the stored sequence. *)

Fixpoint chain (rel : Q -> Q -> bool) (t0 : Q) (ts : list Q) : bool :=
  match ts with
  | [] => true
  | t1 :: rest => rel t0 t1 && chain rel t1 rest
  end.

Definition ascending (ts : list Q) : bool :=
  match ts with [] => true | t0 :: rest => chain Qle_bool t0 rest end.

Definition strictly_ascending (ts : list Q) : bool :=
  match ts with [] => true | t0 :: rest => chain Qltb t0 rest end.

Fixpoint distinct (ts : list Q) : bool :=
  match ts with
  | [] => true
  | t0 :: rest => forallb (fun t1 => negb (Qeq_bool t0 t1)) rest && distinct rest
  end.

Definition knot_invariant (p : t) : bool :=
  negb (Nat.eqb (length (pairs p)) 0) && strictly_ascending (times p).

End Progression.

(** ** ShapeController *)

Module ShapeController.

Record t := mk {
  base : ShapeBase.t;
  enabled : bool;
  value : Q;
  multiplier : option Q;
  prog : nat
}.

(** [ShapeController(name, prog, index)]: the initialiser list is
    [ShapeBase(name, index), enabled(true), value(0.0), prog(prog)];
    [multiplier] is not in it. *)
Definition ctor (name : string) (prog : nat) (index : nat) : t :=
  {| base := ShapeBase.ctor name index;
     enabled := true;
     value := 0;
     multiplier := indeterminate;
     prog := prog |}.

Definition set_value (v : Q) (c : t) : t :=
  {| base := base c; enabled := enabled c; value := v;
     multiplier := multiplier c; prog := prog c |}.

Definition set_multiplier (m : Q) (c : t) : t :=
  {| base := base c; enabled := enabled c; value := value c;
     multiplier := Some m; prog := prog c |}.

(** [void clearValue(){value = 0.0; multiplier=1.0;}] *)
Definition clearValue (c : t) : t := set_multiplier 1 (set_value 0 c).

Definition getValue (c : t) : Q := value c.
Definition getMultiplier (c : t) : option Q := multiplier c.

Definition setEnabled (enable : bool) (c : t) : t :=
  {| base := base c; enabled := enable; value := value c;
     multiplier := multiplier c; prog := prog c |}.

Definition setUserData (data : void_ptr) (c : t) : t :=
  {| base := ShapeBase.setUserData data (base c); enabled := enabled c;
     value := value c; multiplier := multiplier c; prog := prog c |}.

Definition index (c : t) : nat := ShapeBase.index (base c).

(** The scratch state of a controller: what a solve pass writes. *)
Definition scratch (c : t) : Q * option Q := (value c, multiplier c).

Definition getName (c : t) : string := ShapeBase.getName (base c).
Definition getIndex (c : t) : nat := ShapeBase.getIndex (base c).
Definition getUserData (c : t) : void_ptr := ShapeBase.getUserData (base c).

(** The mutators of the base class that have a body in the header, and a
    run of them on one controller. *)
Inductive op :=
| ClearValue
| SetEnabled (enable : bool)
| SetUserData (data : void_ptr).

Definition apply (c : t) (o : op) : t :=
  match o with
  | ClearValue => clearValue c
  | SetEnabled b => setEnabled b c
  | SetUserData d => setUserData d c
  end.

Definition run (ops : list op) (c : t) : t := fold_left apply ops c.

Definition is_ClearValue (o : op) : bool :=
  match o with ClearValue => true | _ => false end.
Definition is_SetEnabled (o : op) : bool :=
  match o with SetEnabled _ => true | _ => false end.
Definition is_SetUserData (o : op) : bool :=
  match o with SetUserData _ => true | _ => false end.

End ShapeController.

(** ** Slider *)

Module Slider.

Record t := mk { ctrl : ShapeController.t }.

Definition ctor (name : string) (prog : nat) (index : nat) : t :=
  {| ctrl := ShapeController.ctor name prog index |}.

Definition lift (f : ShapeController.t -> ShapeController.t) (s : t) : t :=
  {| ctrl := f (ctrl s) |}.

(** [this->value = values[this->index];] *)
Definition storeValue (values posValues clamped : list Q)
    (inverses : list bool) (s : t) : option t :=
  v ← values !! ShapeController.index (ctrl s);
  Some (lift (ShapeController.set_value v) s).

(** The calls that change a slider, and a run of them on one slider; the
    run stops without a result at the first call that has none. *)
Inductive op :=
| Base (o : ShapeController.op)
| StoreValue (values posValues clamped : list Q) (inverses : list bool).

Definition apply (s : t) (o : op) : option t :=
  match o with
  | Base b => Some (lift (fun c => ShapeController.apply c b) s)
  | StoreValue values posValues clamped inverses =>
      storeValue values posValues clamped inverses s
  end.

Fixpoint run (ops : list op) (s : t) : option t :=
  match ops with
  | [] => Some s
  | o :: rest => s' ← apply s o; run rest s'
  end.

Definition is_Clear (o : op) : bool :=
  match o with Base b => ShapeController.is_ClearValue b | _ => false end.
Definition is_Enable (o : op) : bool :=
  match o with Base b => ShapeController.is_SetEnabled b | _ => false end.

End Slider.

(** ** Combo *)

Module Combo.

(** A state: a [Slider*] (position in [Simplex::sliders]) and the signed
    target on that slider. *)
Definition state : Type := nat * Q.

Record t := mk {
  ctrl : ShapeController.t;
  exact : option bool;
  stateList : list state
}.

(** [Combo(name, prog, index, stateList)]: the initialiser list is
    [ShapeController(name, prog, index), stateList(stateList)]; [exact] is
    not in it. *)
Definition ctor (name : string) (prog : nat) (index : nat)
    (stateList : list state) : t :=
  {| ctrl := ShapeController.ctor name prog index;
     exact := indeterminate;
     stateList := stateList |}.

Definition lift (f : ShapeController.t -> ShapeController.t) (c : t) : t :=
  {| ctrl := f (ctrl c); exact := exact c; stateList := stateList c |}.

(** [void setExact(bool e){exact = e;}] *)
Definition setExact (e : bool) (c : t) : t :=
  {| ctrl := ctrl c; exact := Some e; stateList := stateList c |}.

(** The mutators a [Combo] has a body for in the header, its own and the
    inherited ones, and a run of them on one object. *)
Inductive op :=
| SetExact (e : bool)
| ClearValue
| SetEnabled (enable : bool)
| SetUserData (data : void_ptr).

Definition apply (c : t) (o : op) : t :=
  match o with
  | SetExact e => setExact e c
  | ClearValue => lift ShapeController.clearValue c
  | SetEnabled b => lift (ShapeController.setEnabled b) c
  | SetUserData d => lift (ShapeController.setUserData d) c
  end.

Definition run (ops : list op) (c : t) : t := fold_left apply ops c.

Definition is_SetExact (o : op) : bool :=
  match o with SetExact _ => true | _ => false end.

(** What a run of combo mutators asks of the [ShapeController] sub-object. *)
Definition base_op (o : op) : option ShapeController.op :=
  match o with
  | SetExact _ => None
  | ClearValue => Some ShapeController.ClearValue
  | SetEnabled b => Some (ShapeController.SetEnabled b)
  | SetUserData d => Some (ShapeController.SetUserData d)
  end.

(** *** [Combo::storeValue] *)

Definition clamp01 (x : Q) : Q := Qmax 0 (Qmin x 1).

(** Modelled from the spec: the body of [Combo::storeValue], which the
    header only declares.  Per participating slider, with signed target
    [tau]: the magnitude is [values[slider.index]]; if
    [inverses[slider.index]] differs from [tau < 0] the contribution is 0;
    otherwise it is [min (v / |tau|) 1], clamped to [0, 1].  A zero target
    on the agreeing side divides by zero, which has no rational value. *)
Definition weight (sliders : list Slider.t) (values : list Q)
    (inverses : list bool) (st : state) : option Q :=
  s ← sliders !! st.1;
  let i := ShapeController.index (Slider.ctrl s) in
  v ← values !! i;
  inv ← inverses !! i;
  if negb (Bool.eqb inv (Qltb st.2 0)) then Some 0%Q
  else if Qeq_bool st.2 0 then None
  else Some (clamp01 (Qmin (v / Qabs st.2) 1)).

(** The contribution of one state in the words of the spec, as a relation
    between the state and its weight. *)
Inductive contribution (sliders : list Slider.t) (values : list Q)
    (inverses : list bool) : state -> Q -> Prop :=
| contribution_reject p tau s v inv :
    sliders !! p = Some s ->
    values !! ShapeController.index (Slider.ctrl s) = Some v ->
    inverses !! ShapeController.index (Slider.ctrl s) = Some inv ->
    inv <> Qltb tau 0 ->
    contribution sliders values inverses (p, tau) 0
| contribution_accept p tau s v inv :
    sliders !! p = Some s ->
    values !! ShapeController.index (Slider.ctrl s) = Some v ->
    inverses !! ShapeController.index (Slider.ctrl s) = Some inv ->
    inv = Qltb tau 0 ->
    ~ (tau == 0)%Q ->
    contribution sliders values inverses (p, tau)
      (clamp01 (Qmin (v / Qabs tau) 1)).

(** The two ways of combining the contributions, as loops over them. *)
Definition combine_exact (ws : list Q) : Q := fold_left Qmin ws 1%Q.
Definition combine_smooth (ws : list Q) : Q := fold_left Qmult ws 1%Q.

(** Modelled from the spec: the body of [Combo::storeValue] (continued).
    Exact mode stores the minimum of the contributions, smooth mode their
    product; the multiplier is not written.  Branching on an [exact] that
    was never assigned has no result. *)
Definition storeValue (sliders : list Slider.t)
    (values posValues clamped : list Q) (inverses : list bool)
    (c : t) : option t :=
  ws ← mapM (weight sliders values inverses) (stateList c);
  e ← exact c;
  Some (lift (ShapeController.set_value
                (if e : bool then combine_exact ws else combine_smooth ws)) c).

End Combo.

(** ** Floater *)

Module Floater.

Record t := mk {
  ctrl : ShapeController.t;
  stateList : list Combo.state;
  values : list Q;
  inverses : list bool
}.

Definition lift (f : ShapeController.t -> ShapeController.t) (c : t) : t :=
  {| ctrl := f (ctrl c); stateList := stateList c;
     values := values c; inverses := inverses c |}.

End Floater.

(** ** Traversal *)

(** A [ShapeController*]: which vector of the rig it points into, and
    where. *)
Inductive CtrlRef :=
| SliderRef (i : nat)
| ComboRef (i : nat)
| FloaterRef (i : nat)
| TraversalRef (i : nat).

Module Traversal.

Record t := mk {
  ctrl : ShapeController.t;
  progressCtrl : CtrlRef;
  multiplierCtrl : CtrlRef
}.

Definition ctor (name : string) (prog : nat) (index : nat)
    (progressCtrl multiplierCtrl : CtrlRef) : t :=
  {| ctrl := ShapeController.ctor name prog index;
     progressCtrl := progressCtrl;
     multiplierCtrl := multiplierCtrl |}.

Definition lift (f : ShapeController.t -> ShapeController.t) (c : t) : t :=
  {| ctrl := f (ctrl c); progressCtrl := progressCtrl c;
     multiplierCtrl := multiplierCtrl c |}.

Section Memory.

(** The controllers a [ShapeController*] can point to.  A traversal only
    writes to itself, so the first three vectors are read-only here. *)
Variable sliders : list Slider.t.
Variable combos : list Combo.t.
Variable floaters : list Floater.t.

Definition deref (traversals : list t) (r : CtrlRef)
    : option ShapeController.t :=
  match r with
  | SliderRef i => Slider.ctrl <$> sliders !! i
  | ComboRef i => Combo.ctrl <$> combos !! i
  | FloaterRef i => Floater.ctrl <$> floaters !! i
  | TraversalRef i => ctrl <$> traversals !! i
  end.

(** [this->value = progressCtrl->getValue();
     this->multiplier = multiplierCtrl->getValue();]
    executed on the traversal at position [this] of [traversals].  The
    second read happens after the first write. *)
Definition storeValue (values posValues clamped : list Q)
    (inverses : list bool) (this : nat) (traversals : list t)
    : option (list t) :=
  self ← traversals !! this;
  p ← deref traversals (progressCtrl self);
  let traversals1 :=
    alter (lift (ShapeController.set_value (ShapeController.getValue p)))
          this traversals in
  m ← deref traversals1 (multiplierCtrl self);
  Some (alter (lift (ShapeController.set_multiplier
                       (ShapeController.getValue m)))
              this traversals1).

(** The two doubles a call of [storeValue] on the traversal at [this]
    reads, in the order it reads them. *)
Definition reads (this : nat) (traversals : list t) : option (Q * Q) :=
  self ← traversals !! this;
  p ← deref traversals (progressCtrl self);
  m ← deref
        (alter (lift (ShapeController.set_value (ShapeController.getValue p)))
               this traversals)
        (multiplierCtrl self);
  Some (ShapeController.getValue p, ShapeController.getValue m).

(** Both pointers of a traversal point at a controller of the rig. *)
Definition live (traversals : list t) (x : t) : bool :=
  bool_decide (is_Some (deref traversals (progressCtrl x)))
  && bool_decide (is_Some (deref traversals (multiplierCtrl x))).

(** A run of [storeValue] calls on the traversals at the given positions,
    in the given order. *)
Fixpoint storeValues (values posValues clamped : list Q)
    (inverses : list bool) (order : list nat) (traversals : list t)
    : option (list t) :=
  match order with
  | [] => Some traversals
  | this :: rest =>
      traversals' ← storeValue values posValues clamped inverses
                      this traversals;
      storeValues values posValues clamped inverses rest traversals'
  end.

End Memory.

End Traversal.

(** ** TriSpace *)

Module TriSpace.

Record t := mk {
  simplexMap : list (list Z * list (list Z));
  floaters : list nat
}.

End TriSpace.

(** ** Simplex *)

Module Simplex.

Record t := mk {
  shapes : list Shape.t;
  progs : list Progression.t;
  sliders : list Slider.t;
  combos : list Combo.t;
  floaters : list Floater.t;
  spaces : list TriSpace.t;
  traversals : list Traversal.t;
  exactSolve : option bool;
  built : bool;
  loaded : bool;
  hasParseError : bool;
  parseError : string;
  parseErrorOffset : nat
}.

Definition with_controllers (sl : list Slider.t) (co : list Combo.t)
    (fl : list Floater.t) (tr : list Traversal.t) (S : t) : t :=
  {| shapes := shapes S; progs := progs S;
     sliders := sl; combos := co; floaters := fl;
     spaces := spaces S; traversals := tr;
     exactSolve := exactSolve S; built := built S; loaded := loaded S;
     hasParseError := hasParseError S; parseError := parseError S;
     parseErrorOffset := parseErrorOffset S |}.

(** Modelled from the spec: the body of [Simplex::clearValues], which the
    header only declares: it resets the scratch fields of all controllers,
    that is, it calls [clearValue] on each of them. *)
Definition clearValues (S : t) : t :=
  with_controllers
    (Slider.lift ShapeController.clearValue <$> sliders S)
    (Combo.lift ShapeController.clearValue <$> combos S)
    (Floater.lift ShapeController.clearValue <$> floaters S)
    (Traversal.lift ShapeController.clearValue <$> traversals S)
    S.

(** The scratch state of every controller of the rig, vector by vector. *)
Definition scratch (S : t) : list (list (Q * option Q)) :=
  [ (ShapeController.scratch ∘ Slider.ctrl) <$> sliders S;
    (ShapeController.scratch ∘ Combo.ctrl) <$> combos S;
    (ShapeController.scratch ∘ Floater.ctrl) <$> floaters S;
    (ShapeController.scratch ∘ Traversal.ctrl) <$> traversals S ].

(** Modelled from the spec: the body of [Simplex::setExactSolve], which the
    header only declares: it sets the rig's combo resolution mode, stored in
    [exactSolve] and handed to every combo through [setExact]. *)
Definition setExactSolve (exact : bool) (S : t) : t :=
  {| shapes := shapes S; progs := progs S;
     sliders := sliders S; combos := Combo.setExact exact <$> combos S;
     floaters := floaters S; spaces := spaces S;
     traversals := traversals S;
     exactSolve := Some exact; built := built S; loaded := loaded S;
     hasParseError := hasParseError S; parseError := parseError S;
     parseErrorOffset := parseErrorOffset S |}.

(** *** Rectification *)

(** The out-parameters of [rectify], as the header declares them:
    [void rectify(const std::vector<double> &rawVec,
                  std::vector<double> &values,
                  std::vector<double> &clamped,
                  std::vector<bool> &inverses)]. *)
Record rectified := mkRectified {
  values : list Q;
  clamped : list Q;
  inverses : list bool
}.



Definition clamp (lo hi x : Q) : Q := Qmax lo (Qmin x hi).

Section Rectify.

(** The double that the body stores in [clamped] for a raw value.  The
    header makes [clamped] a vector of doubles and gives no body, and the
    spec describes a truth value there, so the number is left open. *)
Variable clampedOf : Q -> Q.

(** Modelled from the spec: the body of [Simplex::rectify], which the
    header only declares.  One pass over the raw vector appends to each of
    the three declared out-parameters: to [values] the magnitude clamped to
    [[0, MAXVAL]], to [inverses] the sign, as the rectifier of the spec has
    them, and to [clamped] its double. *)
Fixpoint rectify_loop (rawVec : list Q) (out : rectified) : rectified :=
  match rawVec with
  | [] => out
  | r :: rest =>
      rectify_loop rest
        {| values := values out ++ [clamp 0 MAXVAL (Qabs r)];
           clamped := clamped out ++ [clampedOf r];
           inverses := inverses out ++ [Qltb r 0] |}
  end.

Definition rectify (rawVec : list Q) : rectified :=
  rectify_loop rawVec {| values := []; clamped := []; inverses := [] |}.

End Rectify.


(** *** Solve *)

Section Solve.

(** The evaluation of a built rig (clear, rectify, the four [storeValue]
    stages, accumulation) goes through [TriSpace::storeValue],
    [ShapeController::solve] and [Progression::getOutput], none of which
    the header defines; it is a parameter here. *)
Variable evaluate : list Q -> t -> option (t * list Q).

(** Modelled from the spec: the exit condition of [Simplex::solve], which
    the header only declares: a rig that failed to build answers with a
    zero vector, one entry per shape. *)
Definition solve (vec : list Q) (S : t) : option (t * list Q) :=
  if built S then evaluate vec S
  else Some (S, replicate (length (shapes S)) 0%Q).

End Solve.

End Simplex.

(** * Properties *)

(** ** Helper facts on the numeric model *)


(** ** Controllers: construction and clearing *)

Lemma clearValue_scratch (c : ShapeController.t) :
  ShapeController.scratch (ShapeController.clearValue c) = (0%Q, Some 1%Q).
Proof. reflexivity. Qed.

Lemma clearValue_idempotent (c : ShapeController.t) :
  ShapeController.clearValue (ShapeController.clearValue c)
  = ShapeController.clearValue c.
Proof. reflexivity. Qed.

(** C5.  At creation a controller of any variant has [value = 0.0] but an
    indeterminate [multiplier]: the pair is not [(0.0, 1.0)] until
    [clearValue] has run, which does set it to [(0.0, 1.0)]. *)
Theorem ctor_scratch_not_cleared (name : string) (prog index : nat)
    (stateList : list Combo.state) (progressCtrl multiplierCtrl : CtrlRef) :
  let fresh :=
    [ ShapeController.ctor name prog index;
      Slider.ctrl (Slider.ctor name prog index);
      Combo.ctrl (Combo.ctor name prog index stateList);
      Traversal.ctrl
        (Traversal.ctor name prog index progressCtrl multiplierCtrl) ] in
  Forall (fun c => ShapeController.scratch c = (0%Q, indeterminate)
                   /\ ShapeController.scratch c <> (0%Q, Some 1%Q)
                   /\ ShapeController.scratch (ShapeController.clearValue c)
                      = (0%Q, Some 1%Q)) fresh.
Proof.
  cbn zeta. repeat constructor; discriminate.
Qed.

(** ** Slider *)

(** C6.  [Slider::storeValue] on a slider whose index is a position of
    [values] always has a result; it stores [values[index]] in [value] and
    leaves the multiplier, and every other member, as it was. *)
Theorem Slider_storeValue_spec (values posValues clamped : list Q)
    (inverses : list bool) (s : Slider.t) :
  ShapeController.index (Slider.ctrl s) < length values ->
  exists s',
    Slider.storeValue values posValues clamped inverses s = Some s'
    /\ values !! ShapeController.index (Slider.ctrl s)
       = Some (ShapeController.value (Slider.ctrl s'))
    /\ ShapeController.multiplier (Slider.ctrl s')
       = ShapeController.multiplier (Slider.ctrl s)
    /\ ShapeController.base (Slider.ctrl s')
       = ShapeController.base (Slider.ctrl s)
    /\ ShapeController.enabled (Slider.ctrl s')
       = ShapeController.enabled (Slider.ctrl s)
    /\ ShapeController.prog (Slider.ctrl s')
       = ShapeController.prog (Slider.ctrl s).
Proof.
  intros Hlt. apply lookup_lt_is_Some in Hlt as [v Hv].
  exists (Slider.lift (ShapeController.set_value v) s).
  unfold Slider.storeValue. rewrite Hv. cbn. repeat split; reflexivity.
Qed.

Lemma Slider_storeValue_spec_witness :
  exists s',
    Slider.storeValue [(1 # 4)%Q; (3 # 4)%Q] [(1 # 4)%Q; (3 # 4)%Q]
      [(1 # 4)%Q; (3 # 4)%Q] [false; false] (Slider.ctor "jawOpen" 0 1)
    = Some s'
    /\ ShapeController.value (Slider.ctrl s') = (3 # 4)%Q.
Proof.
  destruct (Slider_storeValue_spec [(1 # 4)%Q; (3 # 4)%Q]
              [(1 # 4)%Q; (3 # 4)%Q] [(1 # 4)%Q; (3 # 4)%Q] [false; false]
              (Slider.ctor "jawOpen" 0 1)) as (s' & Hs & Hv & _).
  - cbn. lia.
  - exists s'. split; [exact Hs|]. cbn in Hv. congruence.
Defined.

(** ** Clearing the rig *)

Lemma fmap_lift_clearValue {A : Type}
    (lift : (ShapeController.t -> ShapeController.t) -> A -> A)
    (Hlift : forall f g x, lift f (lift g x) = lift (fun c => f (g c)) x)
    (l : list A) :
  lift ShapeController.clearValue <$> (lift ShapeController.clearValue <$> l)
  = lift ShapeController.clearValue <$> l.
Proof.
  rewrite <- list_fmap_compose. apply list_fmap_ext. intros _ x _.
  cbn. now rewrite Hlift.
Qed.

(** C9.  Two successive [clearValues] leave the rig, and with it the
    scratch state of every controller, as one [clearValues] does. *)
Theorem clearValues_idempotent (S : Simplex.t) :
  Simplex.clearValues (Simplex.clearValues S) = Simplex.clearValues S
  /\ Simplex.scratch (Simplex.clearValues (Simplex.clearValues S))
     = Simplex.scratch (Simplex.clearValues S).
Proof.
  assert (Simplex.clearValues (Simplex.clearValues S)
          = Simplex.clearValues S) as Heq.
  { unfold Simplex.clearValues, Simplex.with_controllers. cbn.
    rewrite !fmap_lift_clearValue by (intros; reflexivity). reflexivity. }
  split; [exact Heq | now rewrite Heq].
Qed.

(** After [clearValues] every controller's scratch pair is [(0.0, 1.0)]. *)
Lemma clearValues_scratch (S : Simplex.t) :
  Forall (Forall (fun sc => sc = (0%Q, Some 1%Q)))
         (Simplex.scratch (Simplex.clearValues S)).
Proof.
  unfold Simplex.scratch, Simplex.clearValues. cbn.
  repeat constructor; rewrite <- list_fmap_compose;
    apply Forall_fmap, Forall_true; intros; reflexivity.
Qed.

(** ** Combo: the resolution mode *)

Lemma run_exact_frame (ops : list Combo.op) (c : Combo.t) :
  forallb (fun o => negb (Combo.is_SetExact o)) ops = true ->
  Combo.exact (Combo.run ops c) = Combo.exact c.
Proof.
  revert c. induction ops as [|o ops IH]; intros c Hops; [reflexivity|].
  cbn in Hops. apply andb_true_iff in Hops as [Ho Hops].
  cbn. rewrite (IH _ Hops). destruct o; try reflexivity. discriminate.
Qed.

(** C10.  The [Combo] constructor leaves [exact] indeterminate, and it stays
    so under every run of the other mutators; [setExact e] makes it [e], and
    so does [setExactSolve e] for every combo of the rig, after which only
    another [setExact] changes it. *)
Theorem Combo_exact_defined_by_setExact :
  (forall name prog index stateList,
     Combo.exact (Combo.ctor name prog index stateList) = indeterminate)
  /\ (forall name prog index stateList ops,
        forallb (fun o => negb (Combo.is_SetExact o)) ops = true ->
        Combo.exact (Combo.run ops (Combo.ctor name prog index stateList))
        = indeterminate)
  /\ (forall c e ops,
        forallb (fun o => negb (Combo.is_SetExact o)) ops = true ->
        Combo.exact (Combo.run ops (Combo.setExact e c)) = Some e)
  /\ (forall S e c,
        c ∈ Simplex.combos (Simplex.setExactSolve e S) ->
        Combo.exact c = Some e).
Proof.
  repeat split.
  - intros. now rewrite run_exact_frame.
  - intros. now rewrite run_exact_frame.
  - intros S e c Hc. cbn in Hc.
    apply list_elem_of_fmap in Hc as (c0 & -> & _). reflexivity.
Qed.

Lemma Combo_exact_defined_by_setExact_witness :
  Combo.exact
    (Combo.run [Combo.ClearValue; Combo.SetEnabled false]
       (Combo.ctor "smileOpen" 0 0 [(0, 1%Q); (1, 1%Q)])) = indeterminate
  /\ Combo.exact
       (Combo.run [Combo.ClearValue]
          (Combo.setExact true
             (Combo.ctor "smileOpen" 0 0 [(0, 1%Q); (1, 1%Q)]))) = Some true.
Proof.
  destruct Combo_exact_defined_by_setExact as (_ & Hnone & Hsome & _).
  split.
  - apply Hnone. reflexivity.
  - apply Hsome. reflexivity.
Defined.

(** ** Traversal *)

Section TraversalFacts.

Variable sliders : list Slider.t.
Variable combos : list Combo.t.
Variable floaters : list Floater.t.

(** Writing to the traversal at [this] is seen through the pointers that
    point at it, and through no other. *)
Lemma deref_alter_self (f : ShapeController.t -> ShapeController.t)
    (this : nat) (traversals : list Traversal.t) :
  Traversal.deref sliders combos floaters
    (alter (Traversal.lift f) this traversals) (TraversalRef this)
  = f <$> Traversal.deref sliders combos floaters traversals
            (TraversalRef this).
Proof.
  cbn. rewrite list_lookup_alter_eq.
  now destruct (traversals !! this).
Qed.

Lemma deref_alter_other (f : ShapeController.t -> ShapeController.t)
    (this : nat) (traversals : list Traversal.t) (r : CtrlRef) :
  r <> TraversalRef this ->
  Traversal.deref sliders combos floaters
    (alter (Traversal.lift f) this traversals) r
  = Traversal.deref sliders combos floaters traversals r.
Proof.
  intros Hr. destruct r as [i|i|i|i]; try reflexivity.
  cbn. rewrite list_lookup_alter_ne; [reflexivity | congruence].
Qed.

Lemma CtrlRef_self_dec (r : CtrlRef) (this : nat) :
  {r = TraversalRef this} + {r <> TraversalRef this}.
Proof.
  destruct r as [i|i|i|i]; try (right; discriminate).
  destruct (decide (i = this)) as [->|Hne]; [left | right]; congruence.
Qed.

(** C7.  [Traversal::storeValue] on the traversal at [this], whose two
    pointers are live: [value] becomes the value of the progress
    controller, [multiplier] the value of the multiplier controller as it
    is when read (its value before the call, unless the traversal is its own
    multiplier controller, which by then holds the new [value]).  In the
    resulting memory both pointers read back what was stored; the two
    pointers and all other traversals are unchanged. *)
Theorem Traversal_storeValue_spec (values posValues clamped : list Q)
    (inverses : list bool) (this : nat) (traversals : list Traversal.t)
    (self : Traversal.t) (p m : ShapeController.t) :
  traversals !! this = Some self ->
  Traversal.deref sliders combos floaters traversals
    (Traversal.progressCtrl self) = Some p ->
  Traversal.deref sliders combos floaters traversals
    (Traversal.multiplierCtrl self) = Some m ->
  exists traversals' self',
    Traversal.storeValue sliders combos floaters
      values posValues clamped inverses this traversals = Some traversals'
    /\ traversals' !! this = Some self'
    /\ ShapeController.value (Traversal.ctrl self')
       = ShapeController.getValue p
    /\ (Traversal.multiplierCtrl self <> TraversalRef this ->
        ShapeController.multiplier (Traversal.ctrl self')
        = Some (ShapeController.getValue m))
    /\ (Traversal.multiplierCtrl self = TraversalRef this ->
        ShapeController.multiplier (Traversal.ctrl self')
        = Some (ShapeController.getValue p))
    /\ ShapeController.getValue
         <$> Traversal.deref sliders combos floaters traversals'
               (Traversal.progressCtrl self)
       = Some (ShapeController.value (Traversal.ctrl self'))
    /\ ShapeController.getValue
         <$> Traversal.deref sliders combos floaters traversals'
               (Traversal.multiplierCtrl self)
       = ShapeController.multiplier (Traversal.ctrl self')
    /\ Traversal.progressCtrl self' = Traversal.progressCtrl self
    /\ Traversal.multiplierCtrl self' = Traversal.multiplierCtrl self
    /\ length traversals' = length traversals
    /\ (forall j, j <> this -> traversals' !! j = traversals !! j).
Proof.
  intros Hself Hp Hm.
  set (setv := ShapeController.set_value (ShapeController.getValue p)).
  set (traversals1 := alter (Traversal.lift setv) this traversals).
  assert (exists m1,
            Traversal.deref sliders combos floaters traversals1
              (Traversal.multiplierCtrl self) = Some m1
            /\ ShapeController.getValue m1
               = (if CtrlRef_self_dec (Traversal.multiplierCtrl self) this
                  then ShapeController.getValue p
                  else ShapeController.getValue m)) as (m1 & Hm1 & Hv1).
  { unfold traversals1.
    destruct (CtrlRef_self_dec (Traversal.multiplierCtrl self) this)
      as [Heq|Hne].
    - rewrite Heq in *. rewrite deref_alter_self, Hm.
      exists (setv m). split; reflexivity.
    - rewrite deref_alter_other by exact Hne. exists m. split; auto. }
  set (setm := ShapeController.set_multiplier (ShapeController.getValue m1)).
  exists (alter (Traversal.lift setm) this traversals1),
         (Traversal.lift setm (Traversal.lift setv self)).
  assert (alter (Traversal.lift setm) this traversals1 !! this
          = Some (Traversal.lift setm (Traversal.lift setv self))) as Hthis.
  { unfold traversals1. rewrite !list_lookup_alter_eq, Hself. reflexivity. }
  split.
  { unfold Traversal.storeValue. rewrite Hself. cbn. rewrite Hp. cbn.
    fold setv. fold traversals1. rewrite Hm1. reflexivity. }
  split; [exact Hthis|].
  split; [reflexivity|].
  split.
  { intros Hne. cbn. rewrite Hv1.
    destruct (CtrlRef_self_dec _ _); [contradiction | reflexivity]. }
  split.
  { intros Heq. cbn. rewrite Hv1.
    destruct (CtrlRef_self_dec _ _); [reflexivity | contradiction]. }
  split.
  { destruct (CtrlRef_self_dec (Traversal.progressCtrl self) this)
      as [Heq|Hne].
    - rewrite Heq. cbn. rewrite Hthis. reflexivity.
    - unfold traversals1. rewrite !deref_alter_other by exact Hne.
      rewrite Hp. reflexivity. }
  split.
  { destruct (CtrlRef_self_dec (Traversal.multiplierCtrl self) this)
      as [Heq|Hne].
    - rewrite Heq. cbn [Traversal.deref]. rewrite Hthis. cbn.
      rewrite Hv1. reflexivity.
    - rewrite deref_alter_other by exact Hne. rewrite Hm1. cbn.
      reflexivity. }
  split; [reflexivity|].
  split; [reflexivity|].
  split.
  { unfold traversals1. now rewrite !length_alter. }
  intros j Hj. unfold traversals1.
  rewrite !list_lookup_alter_ne by congruence. reflexivity.
Qed.

End TraversalFacts.

Lemma Traversal_storeValue_spec_witness :
  exists traversals' self',
    Traversal.storeValue
      [Slider.lift (ShapeController.set_value (1 # 2)) (Slider.ctor "a" 0 0);
       Slider.lift (ShapeController.set_value 1) (Slider.ctor "b" 0 1)]
      [] [] [(1 # 2)%Q; 1%Q] [(1 # 2)%Q; 1%Q] [(1 # 2)%Q; 1%Q] [false; false]
      0 [Traversal.ctor "ab" 1 0 (SliderRef 0) (SliderRef 1)]
    = Some traversals'
    /\ traversals' !! 0 = Some self'
    /\ ShapeController.value (Traversal.ctrl self') = (1 # 2)%Q
    /\ ShapeController.multiplier (Traversal.ctrl self') = Some 1%Q.
Proof.
  destruct (Traversal_storeValue_spec
              [Slider.lift (ShapeController.set_value (1 # 2))
                 (Slider.ctor "a" 0 0);
               Slider.lift (ShapeController.set_value 1)
                 (Slider.ctor "b" 0 1)]
              [] [] [(1 # 2)%Q; 1%Q] [(1 # 2)%Q; 1%Q] [(1 # 2)%Q; 1%Q]
              [false; false] 0
              [Traversal.ctor "ab" 1 0 (SliderRef 0) (SliderRef 1)]
              (Traversal.ctor "ab" 1 0 (SliderRef 0) (SliderRef 1))
              (ShapeController.set_value (1 # 2)
                 (ShapeController.ctor "a" 0 0))
              (ShapeController.set_value 1 (ShapeController.ctor "b" 0 1)))
    as (traversals' & self' & Hrun & Hthis & Hv & Hm & _);
    [reflexivity | reflexivity | reflexivity |].
  exists traversals', self'. repeat split; try assumption.
  apply Hm. discriminate.
Defined.

(** ** Progression: the knots after construction *)

(** C4.  The constructor does not establish the knot order.  The member
    initialiser copies the argument and the [std::sort] of the body does
    not reach the member, so the knots are stored in the order given.  For
    the two knots [(shape 0, 1.0), (shape 1, 0.5)], a non-empty argument
    with different [t], the stored sequence is the argument itself, is not
    ascending, and fails the knot invariant, which the same two knots in
    the other order satisfy. *)
Theorem Progression_ctor_leaves_unsorted :
  (forall name pairs interp,
     Progression.pairs (Progression.ctor name pairs interp) = pairs)
  /\ Progression.pairs
       (Progression.ctor "jawOpen" [(0, 1%Q); (1, (1 # 2)%Q)] linear)
     = [(0, 1%Q); (1, (1 # 2)%Q)]
  /\ Progression.distinct
       (Progression.times
          (Progression.ctor "jawOpen" [(0, 1%Q); (1, (1 # 2)%Q)] linear))
     = true
  /\ Progression.ascending
       (Progression.times
          (Progression.ctor "jawOpen" [(0, 1%Q); (1, (1 # 2)%Q)] linear))
     = false
  /\ Progression.knot_invariant
       (Progression.ctor "jawOpen" [(0, 1%Q); (1, (1 # 2)%Q)] linear)
     = false
  /\ Progression.knot_invariant
       (Progression.ctor "jawOpen" [(1, (1 # 2)%Q); (0, 1%Q)] linear)
     = true.
Proof.
  split; [intros name pairs interp; reflexivity|].
  repeat split.
Qed.

(** ** Solve on a rig that is not built *)

(** C8.  [solve] on a rig with [built = false] returns a vector of zeros,
    one per shape, and leaves the rig as it is. *)
Theorem solve_unbuilt_zero
    (evaluate : list Q -> Simplex.t -> option (Simplex.t * list Q))
    (vec : list Q) (S : Simplex.t) :
  Simplex.built S = false ->
  exists out,
    Simplex.solve evaluate vec S = Some (S, out)
    /\ length out = length (Simplex.shapes S)
    /\ Forall (fun w => w = 0%Q) out.
Proof.
  intros Hb. exists (replicate (length (Simplex.shapes S)) 0%Q).
  unfold Simplex.solve. rewrite Hb.
  split; [reflexivity|]. split; [apply length_replicate|].
  apply Forall_replicate. reflexivity.
Qed.

Lemma solve_unbuilt_zero_witness :
  exists out,
    Simplex.solve (fun _ _ => None) [(1 # 2)%Q]
      (Simplex.mk [Shape.ctor "A" 0; Shape.ctor "B" 1] [] [] [] [] [] []
         indeterminate false true true "dangling progression" 0)
    = Some (Simplex.mk [Shape.ctor "A" 0; Shape.ctor "B" 1] [] [] [] [] [] []
              indeterminate false true true "dangling progression" 0, out)
    /\ out = [0%Q; 0%Q].
Proof.
  destruct (solve_unbuilt_zero (fun _ _ => None) [(1 # 2)%Q]
              (Simplex.mk [Shape.ctor "A" 0; Shape.ctor "B" 1] [] [] [] [] []
                 [] indeterminate false true true "dangling progression" 0))
    as (out & Hrun & Hlen & Hz); [reflexivity|].
  exists out. split; [exact Hrun|].
  destruct out as [|a [|b [|c out]]]; try discriminate Hlen.
  inversion Hz as [|? ? -> Hz']. inversion Hz' as [|? ? -> _]. reflexivity.
Defined.

(** ** Rectification *)


Lemma clamp_inside (lo hi x : Q) :
  (lo <= x <= hi)%Q -> (Simplex.clamp lo hi x == x)%Q.
Proof.
  intros [Hl Hh]. unfold Simplex.clamp.
  rewrite (Q.min_l x hi) by exact Hh. now apply Q.max_r.
Qed.

Lemma clamp_above (lo hi x : Q) :
  (lo <= hi)%Q -> (hi <= x)%Q -> (Simplex.clamp lo hi x == hi)%Q.
Proof.
  intros Hlh Hx. unfold Simplex.clamp.
  rewrite (Q.min_r x hi) by exact Hx. now apply Q.max_r.
Qed.

(** The loop appends one entry per raw value to each output. *)
Lemma rectify_loop_app (clampedOf : Q -> Q) (rawVec : list Q)
    (out : Simplex.rectified) :
  Simplex.rectify_loop clampedOf rawVec out
  = {| Simplex.values :=
         Simplex.values out
         ++ map (fun r => Simplex.clamp 0 MAXVAL (Qabs r)) rawVec;
       Simplex.clamped := Simplex.clamped out ++ map clampedOf rawVec;
       Simplex.inverses :=
         Simplex.inverses out ++ map (fun r => Qltb r 0) rawVec |}.
Proof.
  revert out. induction rawVec as [|r rest IH]; intros out.
  - destruct out. cbn. now rewrite !app_nil_r.
  - cbn [Simplex.rectify_loop]. rewrite IH. cbn.
    now rewrite <- !app_assoc.
Qed.




(** The rectified vectors are the ones [storeValue] takes: a slider whose
    index is a position of the raw vector stores the clamped magnitude of
    the raw value there. *)
Lemma rectify_feeds_slider (clampedOf : Q -> Q) (rawVec posValues : list Q)
    (s : Slider.t) (r : Q) :
  rawVec !! ShapeController.index (Slider.ctrl s) = Some r ->
  Slider.storeValue
    (Simplex.values (Simplex.rectify clampedOf rawVec)) posValues
    (Simplex.clamped (Simplex.rectify clampedOf rawVec))
    (Simplex.inverses (Simplex.rectify clampedOf rawVec)) s
  = Some (Slider.lift
            (ShapeController.set_value (Simplex.clamp 0 MAXVAL (Qabs r))) s).
Proof.
  intros Hr. unfold Slider.storeValue, Simplex.rectify.
  rewrite rectify_loop_app. cbn. rewrite list_lookup_fmap, Hr. reflexivity.
Qed.

(** ** Combo: the stored value in exact mode *)

Lemma Qmin_pick (x y : Q) : Qmin x y = x \/ Qmin x y = y.
Proof.
  unfold Qmin, GenericMinMax.gmin. destruct (x ?= y)%Q; auto.
Qed.

Lemma combine_exact_le_start (ws : list Q) (a : Q) :
  (fold_left Qmin ws a <= a)%Q.
Proof.
  revert a. induction ws as [|w ws IH]; intros a; cbn; [apply Qle_refl|].
  eapply Qle_trans; [apply IH | apply Q.le_min_l].
Qed.

Lemma combine_exact_lower (ws : list Q) (a : Q) :
  Forall (Qle (fold_left Qmin ws a)) ws.
Proof.
  revert a. induction ws as [|w ws IH]; intros a; cbn; constructor.
  - eapply Qle_trans; [apply combine_exact_le_start | apply Q.le_min_r].
  - apply IH.
Qed.

Lemma combine_exact_attained (ws : list Q) (a : Q) :
  fold_left Qmin ws a = a \/ Exists (eq (fold_left Qmin ws a)) ws.
Proof.
  revert a. induction ws as [|w ws IH]; intros a; cbn; [now left|].
  destruct (IH (Qmin a w)) as [Heq|Hex].
  - rewrite Heq. destruct (Qmin_pick a w) as [->| ->]; [now left|].
    right. now constructor.
  - right. now apply Exists_cons_tl.
Qed.

Lemma clamp01_range (x : Q) : (0 <= Combo.clamp01 x <= 1)%Q.
Proof.
  unfold Combo.clamp01. split; [apply Q.le_max_l|].
  apply Q.max_lub; [easy | apply Q.le_min_r].
Qed.

Section ComboFacts.

Variable sliders : list Slider.t.
Variable values : list Q.
Variable inverses : list bool.

(** The computed contribution is the one the spec's wording describes. *)
Lemma weight_contribution (st : Combo.state) (w : Q) :
  Combo.contribution sliders values inverses st w ->
  Combo.weight sliders values inverses st = Some w.
Proof.
  intros [p tau s v inv Hs Hv Hinv Hne | p tau s v inv Hs Hv Hinv Heq Htau];
    unfold Combo.weight; cbn; rewrite Hs; cbn; rewrite Hv; cbn;
    rewrite Hinv; cbn.
  - destruct (Bool.eqb inv (Qltb tau 0)) eqn:E; [|reflexivity].
    apply Bool.eqb_prop in E. contradiction.
  - rewrite Heq, Bool.eqb_reflx. cbn.
    destruct (Qeq_bool tau 0) eqn:E; [|reflexivity].
    apply Qeq_bool_iff in E. contradiction.
Qed.

Lemma contribution_range (st : Combo.state) (w : Q) :
  Combo.contribution sliders values inverses st w -> (0 <= w <= 1)%Q.
Proof.
  intros [p tau s v inv _ _ _ _ | p tau s v inv _ _ _ _ _].
  - split; easy.
  - apply clamp01_range.
Qed.

(** C3.  For a combo in exact mode whose states have the contributions
    [ws] (0 on a sign mismatch, otherwise [min (v / |tau|) 1] clamped to
    [[0, 1]]), [storeValue] stores the minimum of [ws]: a lower bound of all
    of them that is one of them, within [[0, 1]].  The multiplier is not
    touched, so it stays 1.0 after [clearValue]. *)
Theorem Combo_storeValue_exact (posValues clamped : list Q) (c : Combo.t)
    (ws : list Q) :
  Combo.exact c = Some true ->
  Forall2 (Combo.contribution sliders values inverses)
          (Combo.stateList c) ws ->
  exists c',
    Combo.storeValue sliders values posValues clamped inverses c = Some c'
    /\ Forall (Qle (ShapeController.value (Combo.ctrl c'))) ws
    /\ (Combo.stateList c <> [] ->
        Exists (Qeq (ShapeController.value (Combo.ctrl c'))) ws)
    /\ (0 <= ShapeController.value (Combo.ctrl c') <= 1)%Q
    /\ ShapeController.multiplier (Combo.ctrl c')
       = ShapeController.multiplier (Combo.ctrl c)
    /\ (ShapeController.multiplier (Combo.ctrl c) = Some 1%Q ->
        ShapeController.multiplier (Combo.ctrl c') = Some 1%Q)
    /\ Combo.exact c' = Some true
    /\ Combo.stateList c' = Combo.stateList c.
Proof.
  intros Hexact Hws.
  assert (mapM (Combo.weight sliders values inverses) (Combo.stateList c)
          = Some ws) as Hmap.
  { apply mapM_Some_2. eapply Forall2_impl; [exact Hws|].
    intros st w. apply weight_contribution. }
  assert (Forall (fun w => 0 <= w <= 1)%Q ws) as Hrange.
  { eapply Forall2_Forall_r; [exact Hws|]. apply Forall_true.
    intros st w. apply contribution_range. }
  exists (Combo.lift (ShapeController.set_value (Combo.combine_exact ws)) c).
  unfold Combo.storeValue. rewrite Hmap. cbn. rewrite Hexact. cbn.
  unfold Combo.combine_exact.
  repeat split; try assumption; try reflexivity.
  - apply combine_exact_lower.
  - intros Hne. destruct ws as [|w0 ws'].
    { apply Forall2_nil_inv_r in Hws. contradiction. }
    destruct (combine_exact_attained (w0 :: ws') 1) as [Heq|Hex].
    + apply Exists_cons_hd. apply Qle_antisym.
      * pose proof (combine_exact_lower (w0 :: ws') 1) as Hlow.
        now inversion Hlow.
      * rewrite Heq. inversion Hrange as [|? ? [_ H1] _]. exact H1.
    + eapply Exists_impl; [exact Hex|]. intros w ->. apply Qeq_refl.
  - destruct (combine_exact_attained ws 1) as [->|Hex]; [easy|].
    apply Exists_exists in Hex as (w & Hin & ->).
    rewrite Forall_forall in Hrange. now apply Hrange.
  - apply combine_exact_le_start.
  - intros Hm. exact Hm.
Qed.

End ComboFacts.

Lemma Combo_storeValue_exact_witness :
  exists c',
    Combo.storeValue
      [Slider.ctor "a" 0 0; Slider.ctor "b" 0 1]
      [(4 # 5)%Q; (3 # 5)%Q] [(4 # 5)%Q; (3 # 5)%Q] [(4 # 5)%Q; (3 # 5)%Q]
      [false; false]
      (Combo.setExact true
         (Combo.lift ShapeController.clearValue
            (Combo.ctor "ab" 1 0 [(0, 1%Q); (1, 1%Q)])))
    = Some c'
    /\ (ShapeController.value (Combo.ctrl c') == 3 # 5)%Q
    /\ ShapeController.multiplier (Combo.ctrl c') = Some 1%Q.
Proof.
  destruct (Combo_storeValue_exact
              [Slider.ctor "a" 0 0; Slider.ctor "b" 0 1]
              [(4 # 5)%Q; (3 # 5)%Q] [false; false]
              [(4 # 5)%Q; (3 # 5)%Q] [(4 # 5)%Q; (3 # 5)%Q]
              (Combo.setExact true
                 (Combo.lift ShapeController.clearValue
                    (Combo.ctor "ab" 1 0 [(0, 1%Q); (1, 1%Q)])))
              [Combo.clamp01 (Qmin ((4 # 5) / Qabs 1) 1);
               Combo.clamp01 (Qmin ((3 # 5) / Qabs 1) 1)])
    as (c' & Hrun & _ & _ & _ & _ & Hmul & _).
  - reflexivity.
  - repeat constructor.
    + eapply (Combo.contribution_accept _ _ _ 0 1%Q (Slider.ctor "a" 0 0));
        [reflexivity | reflexivity | reflexivity | reflexivity | discriminate].
    + eapply (Combo.contribution_accept _ _ _ 1 1%Q (Slider.ctor "b" 0 1));
        [reflexivity | reflexivity | reflexivity | reflexivity | discriminate].
  - exists c'. split; [exact Hrun|]. split; [|apply Hmul; reflexivity].
    vm_compute in Hrun. injection Hrun as <-. reflexivity.
Defined.

(** The combo of two sliders with targets [(a, 1), (b, 1)] on the inputs
    [(0.8, 0.6)] and [(0.8, -0.6)], in both modes. *)
Example combo_exact_sign_mismatch :
  ShapeController.value ∘ Combo.ctrl
    <$> Combo.storeValue [Slider.ctor "a" 0 0; Slider.ctor "b" 0 1]
          [(4 # 5)%Q; (3 # 5)%Q] [] [] [false; true]
          (Combo.setExact true (Combo.ctor "ab" 1 0 [(0, 1%Q); (1, 1%Q)]))
  = Some 0%Q.
Proof. reflexivity. Qed.

Example combo_smooth_product :
  Qeq_bool (12 # 25)
    (default 0%Q
       (ShapeController.value ∘ Combo.ctrl
          <$> Combo.storeValue [Slider.ctor "a" 0 0; Slider.ctor "b" 0 1]
                [(4 # 5)%Q; (3 # 5)%Q] [] [] [false; false]
                (Combo.setExact false
                   (Combo.ctor "ab" 1 0 [(0, 1%Q); (1, 1%Q)]))))
  = true.
Proof. reflexivity. Qed.

Example combo_mode_never_set :
  Combo.storeValue [Slider.ctor "a" 0 0; Slider.ctor "b" 0 1]
    [(4 # 5)%Q; (3 # 5)%Q] [] [] [false; false]
    (Combo.ctor "ab" 1 0 [(0, 1%Q); (1, 1%Q)])
  = None.
Proof. reflexivity. Qed.

(** A slider whose index is past the end of [values] reads out of range. *)
Example slider_index_out_of_range :
  Slider.storeValue [(1 # 2)%Q] [] [] [false] (Slider.ctor "b" 0 1) = None.
Proof. reflexivity. Qed.

(** A traversal that is its own multiplier controller reads back the value
    it has just stored. *)
Example traversal_own_multiplier :
  ShapeController.scratch ∘ Traversal.ctrl
    <$> (Traversal.storeValue
           [Slider.lift (ShapeController.set_value (1 # 2))
              (Slider.ctor "a" 0 0)] [] []
           [] [] [] [] 0
           [Traversal.ctor "t" 1 0 (SliderRef 0) (TraversalRef 0)]
         ≫= (.!! 0))
  = Some ((1 # 2)%Q, Some (1 # 2)%Q).
Proof. reflexivity. Qed.

(** * The life cycle of a controller *)

(** ** Runs of the base mutators *)

(** A member that no call outside [sel] writes is the same after a run
    without calls in [sel]. *)
Lemma ShapeController_run_frame {A : Type} (get : ShapeController.t -> A)
    (sel : ShapeController.op -> bool) :
  (forall c o, sel o = false ->
     get (ShapeController.apply c o) = get c) ->
  forall ops c,
    forallb (fun o => negb (sel o)) ops = true ->
    get (ShapeController.run ops c) = get c.
Proof.
  intros Hframe ops. induction ops as [|o ops IH]; intros c Hops.
  - reflexivity.
  - cbn in Hops. apply andb_true_iff in Hops as [Ho Hops].
    apply negb_true_iff in Ho. cbn. rewrite (IH _ Hops).
    now apply Hframe.
Qed.

Lemma ShapeController_run_app (ops1 ops2 : list ShapeController.op)
    (c : ShapeController.t) :
  ShapeController.run (ops1 ++ ops2) c
  = ShapeController.run ops2 (ShapeController.run ops1 c).
Proof. apply fold_left_app. Qed.

(** X1.  The name, the index and the progression of a controller are those it
    was constructed with, whatever is called on it afterwards. *)
Theorem ShapeController_identity_fixed (name : string) (prog index : nat)
    (ops : list ShapeController.op) :
  ShapeController.getName
    (ShapeController.run ops (ShapeController.ctor name prog index)) = name
  /\ ShapeController.getIndex
       (ShapeController.run ops (ShapeController.ctor name prog index))
     = index
  /\ ShapeController.prog
       (ShapeController.run ops (ShapeController.ctor name prog index))
     = prog.
Proof.
  assert (forall c,
            (ShapeController.getName (ShapeController.run ops c),
             ShapeController.getIndex (ShapeController.run ops c),
             ShapeController.prog (ShapeController.run ops c))
            = (ShapeController.getName c, ShapeController.getIndex c,
               ShapeController.prog c)) as Hfix.
  { intros c.
    apply (ShapeController_run_frame
             (fun c => (ShapeController.getName c,
                        ShapeController.getIndex c,
                        ShapeController.prog c))
             (fun _ => false)).
    - intros c' [| |] _; reflexivity.
    - clear. induction ops as [|o ops IH]; [reflexivity | exact IH]. }
  specialize (Hfix (ShapeController.ctor name prog index)).
  cbn in Hfix. injection Hfix as Hn Hi Hp. auto.
Qed.

(** X2.  [enabled] and the user data are what the last [setEnabled] and the
    last [setUserData] of a run made them; a controller that never saw
    such a call is enabled and carries [nullptr]. *)
Theorem ShapeController_last_setter (name : string) (prog index : nat)
    (before after : list ShapeController.op) :
  (forallb (fun o => negb (ShapeController.is_SetEnabled o)) after = true ->
   ShapeController.enabled
     (ShapeController.run after (ShapeController.ctor name prog index))
   = true
   /\ forall b c,
        ShapeController.enabled
          (ShapeController.run
             (before ++ ShapeController.SetEnabled b :: after) c) = b)
  /\ (forallb (fun o => negb (ShapeController.is_SetUserData o)) after
      = true ->
      ShapeController.getUserData
        (ShapeController.run after (ShapeController.ctor name prog index))
      = nullptr
      /\ forall d c,
           ShapeController.getUserData
             (ShapeController.run
                (before ++ ShapeController.SetUserData d :: after) c) = d).
Proof.
  split; intros Hafter.
  - pose proof (ShapeController_run_frame ShapeController.enabled
                  ShapeController.is_SetEnabled) as Hframe.
    split.
    + rewrite Hframe; [reflexivity | | exact Hafter].
      intros c [| |] Ho; try reflexivity. discriminate.
    + intros b c. rewrite ShapeController_run_app. cbn.
      rewrite Hframe; [reflexivity | | exact Hafter].
      intros c' [| |] Ho; try reflexivity. discriminate.
  - pose proof (ShapeController_run_frame ShapeController.getUserData
                  ShapeController.is_SetUserData) as Hframe.
    split.
    + rewrite Hframe; [reflexivity | | exact Hafter].
      intros c [| |] Ho; try reflexivity. discriminate.
    + intros d c. rewrite ShapeController_run_app. cbn.
      rewrite Hframe; [reflexivity | | exact Hafter].
      intros c' [| |] Ho; try reflexivity. discriminate.
Qed.

Lemma ShapeController_last_setter_witness :
  ShapeController.enabled
    (ShapeController.run
       [ShapeController.ClearValue; ShapeController.SetEnabled false;
        ShapeController.SetUserData (Some 7%N); ShapeController.ClearValue]
       (ShapeController.ctor "jawOpen" 0 3)) = false
  /\ ShapeController.getUserData
       (ShapeController.run [ShapeController.ClearValue]
          (ShapeController.ctor "jawOpen" 0 3)) = nullptr.
Proof.
  split.
  - destruct (ShapeController_last_setter "jawOpen" 0 3
                [ShapeController.ClearValue]
                [ShapeController.SetUserData (Some 7%N);
                 ShapeController.ClearValue]) as [He _].
    destruct (He eq_refl) as [_ Hlast].
    exact (Hlast false (ShapeController.ctor "jawOpen" 0 3)).
  - destruct (ShapeController_last_setter "jawOpen" 0 3 []
                [ShapeController.ClearValue]) as [_ Hd].
    destruct (Hd eq_refl) as [Hnull _]. exact Hnull.
Defined.

(** X3.  Under the base mutators the scratch pair has two states only: the one
    the constructor leaves, [(0.0, indeterminate)], until the first
    [clearValue], and [(0.0, 1.0)] from then on. *)
Theorem ShapeController_scratch_states (name : string) (prog index : nat)
    (ops : list ShapeController.op) :
  ShapeController.scratch
    (ShapeController.run ops (ShapeController.ctor name prog index))
  = (0%Q, if existsb ShapeController.is_ClearValue ops
          then Some 1%Q else indeterminate).
Proof.
  assert (forall c,
            ShapeController.scratch (ShapeController.run ops c)
            = if existsb ShapeController.is_ClearValue ops
              then (0%Q, Some 1%Q) else ShapeController.scratch c) as Hgen.
  { induction ops as [|o ops IH]; intros c; [reflexivity|].
    cbn. rewrite IH. destruct o; cbn; try reflexivity.
    now destruct (existsb ShapeController.is_ClearValue ops). }
  rewrite Hgen.
  now destruct (existsb ShapeController.is_ClearValue ops).
Qed.

(** ** Combo: its mutators and its base sub-object *)

(** X4.  A run of combo mutators acts on the [ShapeController] sub-object as the
    run of its inherited calls alone: [setExact] never reaches it, and no
    call changes the state list. *)
Theorem Combo_run_base (ops : list Combo.op) (c : Combo.t) :
  Combo.ctrl (Combo.run ops c)
  = ShapeController.run (omap Combo.base_op ops) (Combo.ctrl c)
  /\ Combo.stateList (Combo.run ops c) = Combo.stateList c.
Proof.
  revert c. induction ops as [|o ops IH]; intros c; [split; reflexivity|].
  cbn [Combo.run fold_left]. fold (Combo.run ops (Combo.apply c o)).
  destruct (IH (Combo.apply c o)) as [Hc Hs]. rewrite Hc, Hs.
  destruct o; split; reflexivity.
Qed.

(** ** Slider: when a store is defined and what it depends on *)

(** X5.  [Slider::storeValue] reads [values] at the slider's index and nowhere
    else: it has a result exactly when the index is a position of
    [values]. *)
Theorem Slider_storeValue_defined (values posValues clamped : list Q)
    (inverses : list bool) (s : Slider.t) :
  (is_Some (Slider.storeValue values posValues clamped inverses s)
   <-> ShapeController.index (Slider.ctrl s) < length values)
  /\ (Slider.storeValue values posValues clamped inverses s = None
      <-> length values <= ShapeController.index (Slider.ctrl s)).
Proof.
  unfold Slider.storeValue. split.
  - rewrite <- lookup_lt_is_Some.
    destruct (values !! ShapeController.index (Slider.ctrl s)); cbn.
    + split; eauto.
    + split; intros [x Hx]; discriminate.
  - rewrite <- lookup_ge_None.
    destruct (values !! ShapeController.index (Slider.ctrl s)); cbn.
    + split; discriminate.
    + split; reflexivity.
Qed.

Lemma Slider_storeValue_index (values posValues clamped : list Q)
    (inverses : list bool) (s s' : Slider.t) :
  Slider.storeValue values posValues clamped inverses s = Some s' ->
  ShapeController.index (Slider.ctrl s')
  = ShapeController.index (Slider.ctrl s).
Proof.
  unfold Slider.storeValue.
  destruct (values !! ShapeController.index (Slider.ctrl s)); cbn;
    [|discriminate].
  intros [= <-]. reflexivity.
Qed.

(** X6.  A store overwrites: what a slider holds after a store is decided by the
    entry of [values] that this store reads, whatever an earlier store put
    there and whatever the other three vectors hold. *)
Theorem Slider_storeValue_overwrites
    (values1 posValues1 clamped1 : list Q) (inverses1 : list bool)
    (values2 posValues2 clamped2 : list Q) (inverses2 : list bool)
    (values3 posValues3 clamped3 : list Q) (inverses3 : list bool)
    (s s1 : Slider.t) :
  Slider.storeValue values1 posValues1 clamped1 inverses1 s = Some s1 ->
  values2 !! ShapeController.index (Slider.ctrl s)
  = values3 !! ShapeController.index (Slider.ctrl s) ->
  Slider.storeValue values2 posValues2 clamped2 inverses2 s1
  = Slider.storeValue values3 posValues3 clamped3 inverses3 s.
Proof.
  intros H1 H23. pose proof (Slider_storeValue_index _ _ _ _ _ _ H1) as Hi.
  unfold Slider.storeValue in *. rewrite Hi, H23.
  destruct (values1 !! ShapeController.index (Slider.ctrl s)); cbn in H1;
    [|discriminate].
  injection H1 as <-.
  destruct (values3 !! ShapeController.index (Slider.ctrl s)); reflexivity.
Qed.

Lemma Slider_storeValue_overwrites_witness :
  Slider.storeValue [(1 # 4)%Q; (3 # 4)%Q] [] [] []
    (Slider.lift (ShapeController.set_value (1 # 2)) (Slider.ctor "b" 0 1))
  = Slider.storeValue [0%Q; (3 # 4)%Q; 1%Q] [0%Q] [] [true]
      (Slider.ctor "b" 0 1).
Proof.
  apply (Slider_storeValue_overwrites [0%Q; (1 # 2)%Q] [] [] []);
    reflexivity.
Defined.

(** X7.  What no call on a slider changes, and what [storeValue] in particular
    leaves alone: a run that has a result keeps the name, the index and the
    progression; without a [clearValue] in it the multiplier is as before,
    so stores alone never define it; without a [setEnabled] in it, so is
    [enabled]. *)
Theorem Slider_run_keeps (ops : list Slider.op) (s s' : Slider.t) :
  Slider.run ops s = Some s' ->
  (ShapeController.getName (Slider.ctrl s')
   = ShapeController.getName (Slider.ctrl s)
   /\ ShapeController.index (Slider.ctrl s')
      = ShapeController.index (Slider.ctrl s)
   /\ ShapeController.prog (Slider.ctrl s')
      = ShapeController.prog (Slider.ctrl s))
  /\ (forallb (fun o => negb (Slider.is_Clear o)) ops = true ->
      ShapeController.multiplier (Slider.ctrl s')
      = ShapeController.multiplier (Slider.ctrl s))
  /\ (forallb (fun o => negb (Slider.is_Enable o)) ops = true ->
      ShapeController.enabled (Slider.ctrl s')
      = ShapeController.enabled (Slider.ctrl s)).
Proof.
  revert s. induction ops as [|o ops IH]; intros s Hrun.
  - injection Hrun as <-. auto.
  - cbn in Hrun. destruct (Slider.apply s o) as [s1|] eqn:Hstep;
      cbn in Hrun; [|discriminate].
    destruct (IH _ Hrun) as ((Hn & Hi & Hp) & Hm & He).
    assert ((ShapeController.getName (Slider.ctrl s1)
             = ShapeController.getName (Slider.ctrl s)
             /\ ShapeController.index (Slider.ctrl s1)
                = ShapeController.index (Slider.ctrl s)
             /\ ShapeController.prog (Slider.ctrl s1)
                = ShapeController.prog (Slider.ctrl s))
            /\ (Slider.is_Clear o = false ->
                ShapeController.multiplier (Slider.ctrl s1)
                = ShapeController.multiplier (Slider.ctrl s))
            /\ (Slider.is_Enable o = false ->
                ShapeController.enabled (Slider.ctrl s1)
                = ShapeController.enabled (Slider.ctrl s)))
      as ((Hn1 & Hi1 & Hp1) & Hm1 & He1).
    { destruct o as [[| |]|vs ps cs inv]; cbn in Hstep.
      1-3: injection Hstep as <-; repeat split; try reflexivity;
        discriminate.
      unfold Slider.storeValue in Hstep.
      destruct (vs !! ShapeController.index (Slider.ctrl s)); cbn in Hstep;
        [|discriminate].
      injection Hstep as <-. repeat split; reflexivity. }
    rewrite Hn, Hi, Hp. split; [auto|]. split; intros Hops; cbn in Hops;
      apply andb_true_iff in Hops as [Ho Hops];
      apply negb_true_iff in Ho.
    + rewrite (Hm Hops). now apply Hm1.
    + rewrite (He Hops). now apply He1.
Qed.

Lemma Slider_run_keeps_witness :
  exists s',
    Slider.run
      [Slider.Base (ShapeController.SetEnabled false);
       Slider.StoreValue [(1 # 4)%Q; (3 # 4)%Q] [] [] [];
       Slider.StoreValue [(1 # 2)%Q; 1%Q] [] [] []]
      (Slider.ctor "b" 0 1) = Some s'
    /\ ShapeController.multiplier (Slider.ctrl s') = indeterminate
    /\ ShapeController.index (Slider.ctrl s') = 1.
Proof.
  eexists. split; [reflexivity|].
  destruct (Slider_run_keeps
              [Slider.Base (ShapeController.SetEnabled false);
               Slider.StoreValue [(1 # 4)%Q; (3 # 4)%Q] [] [] [];
               Slider.StoreValue [(1 # 2)%Q; 1%Q] [] [] []]
              (Slider.ctor "b" 0 1) _ eq_refl) as ((_ & Hi & _) & Hm & _).
  split; [exact (Hm eq_refl) | exact Hi].
Defined.

(** * Traversals in the memory of the rig *)

Section TraversalMemory.

Variable sliders : list Slider.t.
Variable combos : list Combo.t.
Variable floaters : list Floater.t.

(** The write of one call: [value] first, then [multiplier]. *)
Lemma storeValue_reads (values posValues clamped : list Q)
    (inverses : list bool) (this : nat) (traversals : list Traversal.t) :
  Traversal.storeValue sliders combos floaters
    values posValues clamped inverses this traversals
  = (fun pm =>
       alter (Traversal.lift (ShapeController.set_multiplier pm.2)) this
         (alter (Traversal.lift (ShapeController.set_value pm.1)) this
            traversals))
    <$> Traversal.reads sliders combos floaters this traversals.
Proof.
  unfold Traversal.storeValue, Traversal.reads.
  destruct (traversals !! this) as [self|]; [cbn|reflexivity].
  destruct (Traversal.deref sliders combos floaters traversals
              (Traversal.progressCtrl self)) as [p|]; [cbn|reflexivity].
  destruct (Traversal.deref sliders combos floaters _
              (Traversal.multiplierCtrl self)); reflexivity.
Qed.

(** A write to the traversal at [i] is not seen through a pointer that
    points elsewhere, and never makes a pointer dangle or come alive. *)
Lemma deref_alter_ne (f : Traversal.t -> Traversal.t) (i : nat)
    (traversals : list Traversal.t) (r : CtrlRef) :
  r <> TraversalRef i ->
  Traversal.deref sliders combos floaters (alter f i traversals) r
  = Traversal.deref sliders combos floaters traversals r.
Proof.
  intros Hr. destruct r as [k|k|k|k]; try reflexivity.
  cbn. rewrite list_lookup_alter_ne; [reflexivity | congruence].
Qed.

Lemma deref_alter_is_Some (f : Traversal.t -> Traversal.t) (i : nat)
    (traversals : list Traversal.t) (r : CtrlRef) :
  is_Some (Traversal.deref sliders combos floaters (alter f i traversals) r)
  <-> is_Some (Traversal.deref sliders combos floaters traversals r).
Proof.
  destruct r as [k|k|k|k]; try reflexivity.
  cbn. rewrite !fmap_is_Some, !lookup_lt_is_Some, length_alter.
  reflexivity.
Qed.

Lemma live_alter (f : Traversal.t -> Traversal.t) (i : nat)
    (traversals : list Traversal.t) (x : Traversal.t) :
  Traversal.live sliders combos floaters (alter f i traversals) x
  = Traversal.live sliders combos floaters traversals x.
Proof.
  unfold Traversal.live. f_equal; apply bool_decide_ext, deref_alter_is_Some.
Qed.

Lemma reads_is_Some (this : nat) (traversals : list Traversal.t) :
  is_Some (Traversal.reads sliders combos floaters this traversals)
  <-> exists self,
        traversals !! this = Some self
        /\ Traversal.live sliders combos floaters traversals self = true.
Proof.
  assert (forall self,
            traversals !! this = Some self ->
            is_Some (Traversal.reads sliders combos floaters this traversals)
            <-> Traversal.live sliders combos floaters traversals self
                = true) as Hself.
  { intros self Hself. unfold Traversal.reads, Traversal.live.
    rewrite Hself. cbn. rewrite andb_true_iff, !bool_decide_eq_true.
    destruct (Traversal.deref sliders combos floaters traversals
                (Traversal.progressCtrl self)) as [p|] eqn:Hp; cbn.
    - rewrite <- (deref_alter_is_Some
                    (Traversal.lift
                       (ShapeController.set_value
                          (ShapeController.getValue p)))
                    this traversals (Traversal.multiplierCtrl self)).
      destruct (Traversal.deref sliders combos floaters _
                  (Traversal.multiplierCtrl self)) as [m|]; cbn.
      + split; eauto.
      + split; [intros [? ?]; discriminate|].
        intros [_ [? ?]]. discriminate.
    - split; [intros [? ?]; discriminate|].
      intros [[? ?] _]. discriminate. }
  destruct (traversals !! this) as [self|] eqn:Hthis.
  - rewrite (Hself self eq_refl). split; [eauto|].
    intros (x & [= <-] & Hx). exact Hx.
  - split.
    + unfold Traversal.reads. rewrite Hthis. intros [? ?]. discriminate.
    + intros (x & Hx & _). discriminate.
Qed.

(** X9.  [Traversal::storeValue] has a result exactly when [this] is a traversal
    of the rig and both of its pointers point at a controller of the rig. *)
Theorem Traversal_storeValue_defined (values posValues clamped : list Q)
    (inverses : list bool) (this : nat) (traversals : list Traversal.t) :
  is_Some (Traversal.storeValue sliders combos floaters
             values posValues clamped inverses this traversals)
  <-> exists self,
        traversals !! this = Some self
        /\ Traversal.live sliders combos floaters traversals self = true.
Proof.
  rewrite storeValue_reads, fmap_is_Some. apply reads_is_Some.
Qed.

Lemma storeValue_length (values posValues clamped : list Q)
    (inverses : list bool) (this : nat)
    (traversals traversals' : list Traversal.t) :
  Traversal.storeValue sliders combos floaters
    values posValues clamped inverses this traversals = Some traversals' ->
  length traversals' = length traversals.
Proof.
  rewrite storeValue_reads. intros H.
  apply fmap_Some in H as (pm & _ & ->). now rewrite !length_alter.
Qed.

Lemma storeValue_all_live (values posValues clamped : list Q)
    (inverses : list bool) (this : nat)
    (traversals traversals' : list Traversal.t) :
  Traversal.storeValue sliders combos floaters
    values posValues clamped inverses this traversals = Some traversals' ->
  Forall (fun x => Traversal.live sliders combos floaters traversals x
                   = true) traversals ->
  Forall (fun x => Traversal.live sliders combos floaters traversals' x
                   = true) traversals'.
Proof.
  rewrite storeValue_reads. intros H Hlive.
  apply fmap_Some in H as (pm & _ & ->). cbn.
  apply Forall_alter; [apply Forall_alter|].
  - eapply Forall_impl; [exact Hlive|]. intros x Hx.
    now rewrite !live_alter.
  - intros x _. cbn. now rewrite !live_alter.
  - intros x _. cbn. now rewrite !live_alter.
Qed.

(** X10.  Liveness of the pointers is kept by every call.  So on a rig all of
    whose traversals have live pointers, any run of [storeValue] calls at
    positions of the rig has a result, with as many traversals, all still
    live. *)
Theorem Traversal_storeValues_defined (values posValues clamped : list Q)
    (inverses : list bool) (order : list nat)
    (traversals : list Traversal.t) :
  Forall (fun x => Traversal.live sliders combos floaters traversals x
                   = true) traversals ->
  Forall (fun this => this < length traversals) order ->
  exists traversals',
    Traversal.storeValues sliders combos floaters
      values posValues clamped inverses order traversals = Some traversals'
    /\ length traversals' = length traversals
    /\ Forall (fun x => Traversal.live sliders combos floaters traversals' x
                        = true) traversals'.
Proof.
  revert traversals.
  induction order as [|this order IH]; intros traversals Hlive Horder.
  - exists traversals. auto.
  - inversion Horder as [|? ? Hthis Hrest]; subst.
    destruct (lookup_lt_is_Some_2 _ _ Hthis) as [self Hself].
    assert (is_Some (Traversal.storeValue sliders combos floaters
                       values posValues clamped inverses this traversals))
      as [t1 Ht1].
    { rewrite storeValue_reads, fmap_is_Some. apply reads_is_Some.
      exists self. split; [exact Hself|].
      exact (Forall_lookup_1 _ _ _ _ Hlive Hself). }
    pose proof (storeValue_length _ _ _ _ _ _ _ Ht1) as Hlen.
    pose proof (storeValue_all_live _ _ _ _ _ _ _ Ht1 Hlive) as Hlive1.
    destruct (IH t1 Hlive1) as (t' & Hrun & Hlen' & Hlive').
    { now rewrite Hlen. }
    exists t'. cbn. rewrite Ht1. cbn.
    split; [exact Hrun|]. split; [congruence | exact Hlive'].
Qed.

End TraversalMemory.

Section TraversalCalls.

Variable sliders : list Slider.t.
Variable combos : list Combo.t.
Variable floaters : list Floater.t.

Lemma deref_alter_eq (f : Traversal.t -> Traversal.t) (this : nat)
    (traversals : list Traversal.t) :
  Traversal.deref sliders combos floaters (alter f this traversals)
    (TraversalRef this)
  = Traversal.ctrl ∘ f <$> traversals !! this.
Proof.
  cbn. rewrite list_lookup_alter_eq.
  now destruct (traversals !! this).
Qed.

(** What a call reads, spelled out by whether a pointer points back at the
    traversal itself. *)
Lemma reads_Some_inv (this : nat) (traversals : list Traversal.t)
    (pv mv : Q) :
  Traversal.reads sliders combos floaters this traversals = Some (pv, mv) ->
  exists self p,
    traversals !! this = Some self
    /\ Traversal.deref sliders combos floaters traversals
         (Traversal.progressCtrl self) = Some p
    /\ pv = ShapeController.value p
    /\ (Traversal.multiplierCtrl self = TraversalRef this -> mv = pv)
    /\ (Traversal.multiplierCtrl self <> TraversalRef this ->
        exists m,
          Traversal.deref sliders combos floaters traversals
            (Traversal.multiplierCtrl self) = Some m
          /\ mv = ShapeController.value m).
Proof.
  unfold Traversal.reads.
  destruct (traversals !! this) as [self|] eqn:Hself; [cbn|discriminate].
  destruct (Traversal.deref sliders combos floaters traversals
              (Traversal.progressCtrl self)) as [p|] eqn:Hp;
    [cbn|discriminate].
  destruct (Traversal.deref sliders combos floaters _
              (Traversal.multiplierCtrl self)) as [m|] eqn:Hm;
    [cbn|discriminate].
  intros [= <- <-]. exists self, p. repeat split; try assumption.
  - intros Heq. rewrite Heq, deref_alter_eq, Hself in Hm.
    injection Hm as <-. reflexivity.
  - intros Hne. rewrite deref_alter_ne in Hm by exact Hne. eauto.
Qed.

Lemma reads_Some_intro (this : nat) (traversals : list Traversal.t)
    (self : Traversal.t) (p : ShapeController.t) (mv : Q) :
  traversals !! this = Some self ->
  Traversal.deref sliders combos floaters traversals
    (Traversal.progressCtrl self) = Some p ->
  (Traversal.multiplierCtrl self = TraversalRef this ->
   mv = ShapeController.value p) ->
  (Traversal.multiplierCtrl self <> TraversalRef this ->
   exists m,
     Traversal.deref sliders combos floaters traversals
       (Traversal.multiplierCtrl self) = Some m
     /\ mv = ShapeController.value m) ->
  Traversal.reads sliders combos floaters this traversals
  = Some (ShapeController.value p, mv).
Proof.
  intros Hself Hp Heq Hne. unfold Traversal.reads.
  rewrite Hself. cbn. rewrite Hp. cbn.
  destruct (CtrlRef_self_dec (Traversal.multiplierCtrl self) this)
    as [Hs|Hs].
  - rewrite Hs, deref_alter_eq, Hself. cbn. now rewrite (Heq Hs).
  - rewrite deref_alter_ne by exact Hs.
    destruct (Hne Hs) as (m & -> & ->). reflexivity.
Qed.

(** X11.  A second call of [storeValue] on the same traversal, with nothing
    stored in between, changes nothing: the call is idempotent, also for a
    traversal that points at itself. *)
Theorem Traversal_storeValue_idempotent
    (values posValues clamped : list Q) (inverses : list bool)
    (values' posValues' clamped' : list Q) (inverses' : list bool)
    (this : nat) (traversals traversals' : list Traversal.t) :
  Traversal.storeValue sliders combos floaters
    values posValues clamped inverses this traversals = Some traversals' ->
  Traversal.storeValue sliders combos floaters
    values' posValues' clamped' inverses' this traversals'
  = Some traversals'.
Proof.
  rewrite !storeValue_reads. intros H.
  apply fmap_Some in H as ([pv mv] & Hreads & ->). cbn [fst snd].
  destruct (reads_Some_inv _ _ _ _ Hreads)
    as (self & p & Hself & Hp & -> & Hmeq & Hmne).
  rewrite list_alter_alter_eq.
  set (w := Traversal.lift (ShapeController.set_multiplier mv)
            ∘ Traversal.lift
                (ShapeController.set_value (ShapeController.value p))).
  assert (Traversal.reads sliders combos floaters this
            (alter w this traversals)
          = Some (ShapeController.value p, mv)) as Hreads'.
  { destruct (CtrlRef_self_dec (Traversal.progressCtrl self) this)
      as [Hps|Hps].
    - apply (reads_Some_intro this _ (w self)
               ((Traversal.ctrl ∘ w) self) mv).
      + now rewrite list_lookup_alter_eq, Hself.
      + cbn [w compose Traversal.lift Traversal.progressCtrl].
        rewrite Hps, deref_alter_eq, Hself. reflexivity.
      + intros Hms. cbn in Hms. now apply Hmeq.
      + intros Hms. cbn in Hms. destruct (Hmne Hms) as (m & Hm & ->).
        exists m. split; [|reflexivity].
        cbn [w compose Traversal.lift Traversal.multiplierCtrl].
        now rewrite deref_alter_ne.
    - apply (reads_Some_intro this _ (w self) p mv).
      + now rewrite list_lookup_alter_eq, Hself.
      + cbn [w compose Traversal.lift Traversal.progressCtrl].
        now rewrite deref_alter_ne.
      + intros Hms. cbn in Hms. now apply Hmeq.
      + intros Hms. cbn in Hms. destruct (Hmne Hms) as (m & Hm & ->).
        exists m. split; [|reflexivity].
        cbn [w compose Traversal.lift Traversal.multiplierCtrl].
        now rewrite deref_alter_ne. }
  rewrite Hreads'. cbn. f_equal.
  rewrite !list_alter_alter_eq. apply list_alter_ext; [|reflexivity].
  intros x _. reflexivity.
Qed.

End TraversalCalls.

Section TraversalOrder.

Variable sliders : list Slider.t.
Variable combos : list Combo.t.
Variable floaters : list Floater.t.

(** A write to another traversal, one that neither pointer points at, does
    not change what a call reads. *)
Lemma reads_alter_other (f : Traversal.t -> Traversal.t) (this i : nat)
    (traversals : list Traversal.t) (self : Traversal.t) :
  this <> i ->
  traversals !! this = Some self ->
  Traversal.progressCtrl self <> TraversalRef i ->
  Traversal.multiplierCtrl self <> TraversalRef i ->
  Traversal.reads sliders combos floaters this (alter f i traversals)
  = Traversal.reads sliders combos floaters this traversals.
Proof.
  intros Hne Hself Hp Hm. unfold Traversal.reads.
  rewrite list_lookup_alter_ne by congruence. rewrite Hself. cbn.
  rewrite deref_alter_ne by exact Hp.
  destruct (Traversal.deref sliders combos floaters traversals
              (Traversal.progressCtrl self)) as [p|]; [cbn|reflexivity].
  rewrite list_alter_alter_ne by exact Hne.
  rewrite deref_alter_ne by exact Hm. reflexivity.
Qed.

(** X12.  Two traversals that do not point at each other can be stored in either
    order: the calls commute, and so do their failures. *)
Theorem Traversal_storeValue_commute (values posValues clamped : list Q)
    (inverses : list bool) (i j : nat) (traversals : list Traversal.t)
    (xi xj : Traversal.t) :
  i <> j ->
  traversals !! i = Some xi ->
  traversals !! j = Some xj ->
  Traversal.progressCtrl xi <> TraversalRef j ->
  Traversal.multiplierCtrl xi <> TraversalRef j ->
  Traversal.progressCtrl xj <> TraversalRef i ->
  Traversal.multiplierCtrl xj <> TraversalRef i ->
  Traversal.storeValue sliders combos floaters
    values posValues clamped inverses i traversals
  ≫= Traversal.storeValue sliders combos floaters
       values posValues clamped inverses j
  = Traversal.storeValue sliders combos floaters
      values posValues clamped inverses j traversals
    ≫= Traversal.storeValue sliders combos floaters
         values posValues clamped inverses i.
Proof.
  intros Hij Hxi Hxj Hpi Hmi Hpj Hmj.
  assert (forall f g,
            Traversal.reads sliders combos floaters j
              (alter f i (alter g i traversals))
            = Traversal.reads sliders combos floaters j traversals) as Hrj.
  { intros f g. rewrite list_alter_alter_eq.
    now apply reads_alter_other with xj. }
  assert (forall f g,
            Traversal.reads sliders combos floaters i
              (alter f j (alter g j traversals))
            = Traversal.reads sliders combos floaters i traversals) as Hri.
  { intros f g. rewrite list_alter_alter_eq.
    now apply reads_alter_other with xi. }
  rewrite (storeValue_reads _ _ _ _ _ _ _ i traversals),
    (storeValue_reads _ _ _ _ _ _ _ j traversals).
  destruct (Traversal.reads sliders combos floaters i traversals)
    as [[pi mi]|] eqn:Hi;
    destruct (Traversal.reads sliders combos floaters j traversals)
      as [[pj mj]|] eqn:Hj; cbn;
    rewrite ?storeValue_reads, ?Hrj, ?Hri, ?Hi, ?Hj; cbn;
    try reflexivity.
  f_equal. rewrite !list_alter_alter_eq.
  now apply list_alter_alter_ne.
Qed.

(** X13.  The data flow of a traversal driven by two sliders: once every slider
    has stored its value from [values], a call on a traversal whose
    pointers are the sliders at [i] and [j] stores the entries of [values]
    at the indices of those two sliders. *)
Theorem Traversal_reads_stored_sliders (values posValues clamped : list Q)
    (inverses : list bool) (stored : list Slider.t)
    (this i j : nat) (traversals : list Traversal.t)
    (self : Traversal.t) (si sj : Slider.t) :
  Forall2 (fun s s' =>
             Slider.storeValue values posValues clamped inverses s
             = Some s') sliders stored ->
  traversals !! this = Some self ->
  Traversal.progressCtrl self = SliderRef i ->
  Traversal.multiplierCtrl self = SliderRef j ->
  sliders !! i = Some si ->
  sliders !! j = Some sj ->
  exists traversals' self' vi vj,
    Traversal.storeValue stored combos floaters
      values posValues clamped inverses this traversals = Some traversals'
    /\ traversals' !! this = Some self'
    /\ values !! ShapeController.index (Slider.ctrl si) = Some vi
    /\ values !! ShapeController.index (Slider.ctrl sj) = Some vj
    /\ ShapeController.scratch (Traversal.ctrl self') = (vi, Some vj).
Proof.
  intros Hstored Hself Hp Hm Hsi Hsj.
  assert (forall k s,
            sliders !! k = Some s ->
            exists v,
              values !! ShapeController.index (Slider.ctrl s) = Some v
              /\ stored !! k
                 = Some (Slider.lift (ShapeController.set_value v) s))
    as Hat.
  { intros k s Hk.
    destruct (Forall2_lookup_l _ _ _ _ _ Hstored Hk) as (s' & Hs' & Hst).
    unfold Slider.storeValue in Hst.
    destruct (values !! ShapeController.index (Slider.ctrl s)) as [v|];
      cbn in Hst; [|discriminate].
    injection Hst as <-. eauto. }
  destruct (Hat i si Hsi) as (vi & Hvi & Hi).
  destruct (Hat j sj Hsj) as (vj & Hvj & Hj).
  eexists _, _, vi, vj. split.
  { unfold Traversal.storeValue. rewrite Hself. cbn.
    rewrite Hp. cbn. rewrite Hi. cbn. rewrite Hm. cbn. rewrite Hj. cbn.
    reflexivity. }
  split.
  { rewrite !list_lookup_alter_eq, Hself. reflexivity. }
  auto.
Qed.

End TraversalOrder.

Lemma Traversal_storeValues_defined_witness :
  exists traversals',
    Traversal.storeValues
      [Slider.lift (ShapeController.set_value (1 # 2)) (Slider.ctor "a" 0 0);
       Slider.lift (ShapeController.set_value 1) (Slider.ctor "b" 0 1)]
      [] [] [] [] [] [] [1; 0; 1]
      [Traversal.ctor "t0" 1 0 (SliderRef 0) (SliderRef 1);
       Traversal.ctor "t1" 1 1 (TraversalRef 0) (TraversalRef 1)]
    = Some traversals'
    /\ length traversals' = 2.
Proof.
  destruct (Traversal_storeValues_defined
              [Slider.lift (ShapeController.set_value (1 # 2))
                 (Slider.ctor "a" 0 0);
               Slider.lift (ShapeController.set_value 1)
                 (Slider.ctor "b" 0 1)]
              [] [] [] [] [] [] [1; 0; 1]
              [Traversal.ctor "t0" 1 0 (SliderRef 0) (SliderRef 1);
               Traversal.ctor "t1" 1 1 (TraversalRef 0) (TraversalRef 1)])
    as (traversals' & Hrun & Hlen & _).
  - repeat constructor.
  - repeat constructor.
  - exists traversals'. split; [exact Hrun | exact Hlen].
Defined.

Lemma Traversal_storeValue_idempotent_witness :
  Traversal.storeValue
    [Slider.lift (ShapeController.set_value (1 # 2)) (Slider.ctor "a" 0 0)]
    [] [] [] [] [] [] 0
    [Traversal.lift
       (fun c => ShapeController.set_multiplier (1 # 2)
                   (ShapeController.set_value (1 # 2) c))
       (Traversal.ctor "t0" 1 0 (SliderRef 0) (TraversalRef 0))]
  = Some
      [Traversal.lift
         (fun c => ShapeController.set_multiplier (1 # 2)
                     (ShapeController.set_value (1 # 2) c))
         (Traversal.ctor "t0" 1 0 (SliderRef 0) (TraversalRef 0))].
Proof.
  apply (Traversal_storeValue_idempotent
           [Slider.lift (ShapeController.set_value (1 # 2))
              (Slider.ctor "a" 0 0)]
           [] [] [] [] [] [] [] [] [] [] 0
           [Traversal.ctor "t0" 1 0 (SliderRef 0) (TraversalRef 0)]).
  reflexivity.
Defined.

Lemma Traversal_storeValue_commute_witness :
  Traversal.storeValue
    [Slider.lift (ShapeController.set_value (1 # 2)) (Slider.ctor "a" 0 0);
     Slider.lift (ShapeController.set_value 1) (Slider.ctor "b" 0 1)]
    [] [] [] [] [] [] 0
    [Traversal.ctor "t0" 1 0 (SliderRef 0) (SliderRef 1);
     Traversal.ctor "t1" 1 1 (SliderRef 1) (TraversalRef 1)]
  ≫= Traversal.storeValue
       [Slider.lift (ShapeController.set_value (1 # 2))
          (Slider.ctor "a" 0 0);
        Slider.lift (ShapeController.set_value 1) (Slider.ctor "b" 0 1)]
       [] [] [] [] [] [] 1
  = Traversal.storeValue
      [Slider.lift (ShapeController.set_value (1 # 2)) (Slider.ctor "a" 0 0);
       Slider.lift (ShapeController.set_value 1) (Slider.ctor "b" 0 1)]
      [] [] [] [] [] [] 1
      [Traversal.ctor "t0" 1 0 (SliderRef 0) (SliderRef 1);
       Traversal.ctor "t1" 1 1 (SliderRef 1) (TraversalRef 1)]
    ≫= Traversal.storeValue
         [Slider.lift (ShapeController.set_value (1 # 2))
            (Slider.ctor "a" 0 0);
          Slider.lift (ShapeController.set_value 1) (Slider.ctor "b" 0 1)]
         [] [] [] [] [] [] 0.
Proof.
  apply (Traversal_storeValue_commute _ _ _ _ _ _ _ 0 1 _
           (Traversal.ctor "t0" 1 0 (SliderRef 0) (SliderRef 1))
           (Traversal.ctor "t1" 1 1 (SliderRef 1) (TraversalRef 1)));
    [lia | reflexivity | reflexivity
     | discriminate | discriminate | discriminate | discriminate].
Defined.

Lemma Traversal_reads_stored_sliders_witness :
  exists traversals' self',
    Traversal.storeValue
      [Slider.lift (ShapeController.set_value (1 # 2)) (Slider.ctor "a" 0 0);
       Slider.lift (ShapeController.set_value 1) (Slider.ctor "b" 0 1)]
      [] [] [(1 # 2)%Q; 1%Q] [] [] [] 0
      [Traversal.lift ShapeController.clearValue
         (Traversal.ctor "ab" 1 0 (SliderRef 0) (SliderRef 1))]
    = Some traversals'
    /\ traversals' !! 0 = Some self'
    /\ ShapeController.scratch (Traversal.ctrl self')
       = ((1 # 2)%Q, Some 1%Q).
Proof.
  destruct (Traversal_reads_stored_sliders
              [Slider.ctor "a" 0 0; Slider.ctor "b" 0 1] [] []
              [(1 # 2)%Q; 1%Q] [] [] []
              [Slider.lift (ShapeController.set_value (1 # 2))
                 (Slider.ctor "a" 0 0);
               Slider.lift (ShapeController.set_value 1)
                 (Slider.ctor "b" 0 1)]
              0 0 1
              [Traversal.lift ShapeController.clearValue
                 (Traversal.ctor "ab" 1 0 (SliderRef 0) (SliderRef 1))]
              (Traversal.lift ShapeController.clearValue
                 (Traversal.ctor "ab" 1 0 (SliderRef 0) (SliderRef 1)))
              (Slider.ctor "a" 0 0) (Slider.ctor "b" 0 1))
    as (traversals' & self' & vi & vj & Hrun & Hthis & Hvi & Hvj & Hsc).
  - repeat constructor.
  - reflexivity.
  - reflexivity.
  - reflexivity.
  - reflexivity.
  - reflexivity.
  - exists traversals', self'. split; [exact Hrun|]. split; [exact Hthis|].
    cbn in Hvi, Hvj. injection Hvi as <-. injection Hvj as <-. exact Hsc.
Defined.

(** * Slider: a pass forgets the history *)

Lemma Slider_run_index (ops : list Slider.op) (s s' : Slider.t) :
  Slider.run ops s = Some s' ->
  ShapeController.index (Slider.ctrl s')
  = ShapeController.index (Slider.ctrl s).
Proof.
  revert s. induction ops as [|o ops IH]; intros s Hrun.
  - now injection Hrun as <-.
  - cbn in Hrun. destruct (Slider.apply s o) as [s1|] eqn:Hstep;
      cbn in Hrun; [|discriminate].
    rewrite (IH _ Hrun).
    destruct o as [[| |]|vs ps cs inv]; cbn in Hstep.
    1-3: now injection Hstep as <-.
    eapply Slider_storeValue_index, Hstep.
Qed.

(** X8.  Whatever calls a slider has seen since its construction, [clearValue]
    followed by [storeValue] leaves its scratch pair at
    [(values[index], 1.0)], with the index it was constructed with; the
    pair carries nothing over from earlier passes. *)
Theorem Slider_pass_forgets (name : string) (prog index : nat)
    (history : list Slider.op) (values posValues clamped : list Q)
    (inverses : list bool) (s s' : Slider.t) :
  Slider.run history (Slider.ctor name prog index) = Some s ->
  Slider.run
    [Slider.Base ShapeController.ClearValue;
     Slider.StoreValue values posValues clamped inverses] s = Some s' ->
  exists v,
    values !! index = Some v
    /\ ShapeController.scratch (Slider.ctrl s') = (v, Some 1%Q).
Proof.
  intros Hhist Hpass. apply Slider_run_index in Hhist.
  change (ShapeController.index (Slider.ctrl (Slider.ctor name prog index)))
    with index in Hhist.
  change (Slider.storeValue values posValues clamped inverses
            (Slider.lift ShapeController.clearValue s)
          ≫= (fun x => Some x) = Some s') in Hpass.
  unfold Slider.storeValue in Hpass.
  change (ShapeController.index
            (Slider.ctrl (Slider.lift ShapeController.clearValue s)))
    with (ShapeController.index (Slider.ctrl s)) in Hpass.
  rewrite Hhist in Hpass.
  destruct (values !! index) as [v|]; cbn in Hpass; [|discriminate].
  injection Hpass as <-. exists v. split; reflexivity.
Qed.

Lemma Slider_pass_forgets_witness :
  exists s',
    Slider.run
      [Slider.StoreValue [(1 # 4)%Q; (3 # 4)%Q] [] [] [];
       Slider.Base (ShapeController.SetEnabled false);
       Slider.Base ShapeController.ClearValue;
       Slider.StoreValue [(1 # 2)%Q; 1%Q] [] [] []]
      (Slider.ctor "b" 0 1) = Some s'
    /\ ShapeController.scratch (Slider.ctrl s') = (1%Q, Some 1%Q).
Proof.
  eexists. split; [reflexivity|].
  destruct (Slider_pass_forgets "b" 0 1
              [Slider.StoreValue [(1 # 4)%Q; (3 # 4)%Q] [] [] [];
               Slider.Base (ShapeController.SetEnabled false)]
              [(1 # 2)%Q; 1%Q] [] [] [] _ _ eq_refl eq_refl)
    as (v & Hv & Hsc).
  injection Hv as <-. exact Hsc.
Defined.
